(** * Tiered rate-limit resolution: the [injectRateLimits] request hook

    A shallow embedding of
    [backend/src/server/plugins/inject-rate-limits.ts].  The hook runs once
    per inbound request; it reads the deployment configuration and the
    instance-wide rate-limit registry, looks up the organisation's plan when
    the request is authenticated, and attaches the resolved thresholds to the
    request.

    The JavaScript objects involved are shared by reference, so the model
    keeps an explicit object store: the registry is a reference to a
    rate-limit object, and [req.rateLimits] is either that very reference or
    a reference to an object freshly built by the hook.

    The second part embeds the route table of
    [backend/src/server/routes/v2/user-router.ts] with its handlers. *)

From Stdlib Require Import ZArith.
From stdpp Require Import base list gmap strings.

Open Scope Z_scope.

(** ** JavaScript values *)

(** A property that may be absent ([undefined]), [null], or hold a value. *)
Inductive Js (A : Type) : Type :=
| undefined : Js A
| null : Js A
| val : A → Js A.
Arguments undefined {A}.
Arguments null {A}.
Arguments val {A} _.

(** The operands on which [??] falls through to its right-hand side. *)
Definition nullish {A} (v : Js A) : bool :=
  match v with
  | val _ => false
  | _ => true
  end.

(** Optional chaining [o?.f]: [undefined] when [o] is nullish. *)
Definition opt_chain {A B} (o : Js A) (f : A → Js B) : Js B :=
  match o with
  | val a => f a
  | _ => undefined
  end.

(** ** Data model *)

(** The eight rate-limit categories. *)
Inductive Category : Type :=
| Read | PublicEndpoint | Write | Secrets | Auth | InviteUser | Mfa | Creation.

Definition all_categories : list Category :=
  [Read; PublicEndpoint; Write; Secrets; Auth; InviteUser; Mfa; Creation].

(** A rate-limit object.  It is the shape of the registry's configuration,
    of [plan.rateLimits] and of [req.rateLimits]; every property is a
    JavaScript value, so that a missing or [null] threshold can be told from
    a number. *)
Record RateLimits : Type := mkRateLimits {
  readLimit : Js Z;
  publicEndpointLimit : Js Z;
  writeLimit : Js Z;
  secretsLimit : Js Z;
  authRateLimit : Js Z;
  inviteUserRateLimit : Js Z;
  mfaRateLimit : Js Z;
  creationLimit : Js Z
}.

(** The property of a rate-limit object that holds a category's threshold. *)
Definition limit_of (c : Category) : RateLimits → Js Z :=
  match c with
  | Read => readLimit
  | PublicEndpoint => publicEndpointLimit
  | Write => writeLimit
  | Secrets => secretsLimit
  | Auth => authRateLimit
  | InviteUser => inviteUserRateLimit
  | Mfa => mfaRateLimit
  | Creation => creationLimit
  end.

(** Every category holds a number. *)
Definition populated (o : RateLimits) : bool :=
  forallb (λ c, negb (nullish (limit_of c o))) all_categories.

(** The organisation's plan, as far as the hook reads it. *)
Record Plan : Type := mkPlan {
  customRateLimits : bool;
  rateLimits : Js RateLimits
}.

(** The deployment configuration returned by [getConfig()]. *)
Record AppCfg : Type := mkAppCfg {
  isCloud : bool
}.

(** The auth context the authentication middleware leaves on the request. *)
Record AuthCtx : Type := mkAuthCtx {
  orgId : string
}.

(** ** Object store and process state *)

Definition ref : Type := positive.

(** The process state the hook can observe: the objects that exist, and the
    object the registry currently designates. *)
Record Store : Type := mkStore {
  heap : gmap positive RateLimits;
  registry : ref
}.

(** What a call can do: return a value or throw. *)
Inductive Error : Type :=
| ServiceError : string → Error
| TypeError : Error.

Inductive Outcome (A : Type) : Type :=
| Returned : A → Outcome A
| Thrown : Error → Outcome A.
Arguments Returned {A} _.
Arguments Thrown {A} _.

(** Calls the hook makes to its collaborators, in the order made. *)
Inductive Event : Type :=
| EvGetConfig : Event
| EvGetRateLimiterConfig : Event
| EvGetPlan : string → Event.

(** The state threaded through one run of the hook: the store, the
    request's [rateLimits] property, and the log of collaborator calls. *)
Record HookState : Type := mkHookState {
  store : Store;
  req_rateLimits : Js ref;
  trace : list Event
}.

(** ** The hook monad: state, exceptions and a call log *)

Definition M (A : Type) : Type := HookState → Outcome A * HookState.

Global Instance M_ret : MRet M := λ A a s, (Returned a, s).

Global Instance M_bind : MBind M := λ A B f m s,
  match m s with
  | (Returned a, s') => f a s'
  | (Thrown e, s') => (Thrown e, s')
  end.

Definition log (e : Event) : M unit := λ s,
  (Returned tt,
   {| store := store s; req_rateLimits := req_rateLimits s;
      trace := trace s ++ [e] |}).

(** The process state as it stands. *)
Definition get_store : M Store := λ s, (Returned (store s), s).

(** [await c]: the hook is suspended while the collaborator [c] runs on
    the process state; it resumes with [c]'s result, or with what [c]
    threw, in the state [c] left. *)
Definition await {A} (c : Store → Outcome A * Store) : M A := λ s,
  let '(r, st') := c (store s) in
  (r, {| store := st'; req_rateLimits := req_rateLimits s;
         trace := trace s |}).

Section Hook.

(** The collaborators of the hook.  [envCfg] is the deployment
    configuration, fixed for the life of the process.
    [license_getPlan] is [server.services.license.getPlan]: it returns a
    plan or throws, and, since the hook is suspended while it runs, it may
    leave the store in a different state. *)
Variable envCfg : AppCfg.
Variable license_getPlan : string → Store → Outcome Plan * Store.

(** [getConfig()] *)
Definition getConfig : M AppCfg :=
  _ ← log EvGetConfig; mret envCfg.

(** Modelled from the spec: [getRateLimiterConfig] of
    [ee/services/rate-limit/rate-limit-service] is not among the sources;
    the registry's accessor returns the current snapshot, here the
    reference the registry holds at the time of the call. *)
Definition getRateLimiterConfig : M ref :=
  _ ← log EvGetRateLimiterConfig;
  st ← get_store;
  mret (registry st).

(** [await server.services.license.getPlan(orgId)] *)
Definition getPlan (org : string) : M Plan :=
  _ ← log (EvGetPlan org);
  await (license_getPlan org).

(** [req.rateLimits = r] *)
Definition set_req_rateLimits (r : ref) : M unit := λ s,
  (Returned tt,
   {| store := store s; req_rateLimits := val r; trace := trace s |}).

(** Property read [r.f] on a rate-limit object held by reference.  A
    JavaScript reference always designates an object; a store in which [r]
    designates none is rendered as the [TypeError] of a property read on
    [undefined]. *)
Definition prop (r : ref) (f : RateLimits → Js Z) : M (Js Z) := λ s,
  match heap (store s) !! r with
  | Some o => (Returned (f o), s)
  | None => (Thrown TypeError, s)
  end.

(** [a ?? b]: [b] is evaluated only when [a] is nullish. *)
Definition coalesce (a : Js Z) (b : M (Js Z)) : M (Js Z) :=
  if nullish a then b else mret a.

(** An object literal: a new object in the store, distinct from all
    existing ones. *)
Definition new_object (o : RateLimits) : M ref := λ s,
  let r := fresh (dom (heap (store s))) in
  (Returned r,
   {| store := {| heap := <[r := o]> (heap (store s));
                  registry := registry (store s) |};
      req_rateLimits := req_rateLimits s; trace := trace s |}).

(** The [onRequest] hook of [injectRateLimits]. *)
Definition onRequest (req_auth : option AuthCtx) : M unit :=
  appCfg ← getConfig;
  instanceRateLimiterConfig ← getRateLimiterConfig;
  match req_auth with
  | None =>
      (* for public endpoints, the instance-wide default rate limits *)
      set_req_rateLimits instanceRateLimiterConfig
  | Some auth =>
      plan ← getPlan (orgId auth);
      let rateLimits := rateLimits plan in
      if customRateLimits plan && negb (isCloud appCfg) then
        (* self-hosted/dedicated: limits come from admin configuration *)
        set_req_rateLimits instanceRateLimiterConfig
      else
        (* null coalescing, to handle outdated licenses *)
        v_read ← coalesce (opt_chain rateLimits readLimit)
                   (prop instanceRateLimiterConfig readLimit);
        v_public ← coalesce (opt_chain rateLimits publicEndpointLimit)
                     (prop instanceRateLimiterConfig publicEndpointLimit);
        v_write ← coalesce (opt_chain rateLimits writeLimit)
                    (prop instanceRateLimiterConfig writeLimit);
        v_secrets ← coalesce (opt_chain rateLimits secretsLimit)
                      (prop instanceRateLimiterConfig secretsLimit);
        v_auth ← coalesce (opt_chain rateLimits authRateLimit)
                   (prop instanceRateLimiterConfig authRateLimit);
        v_invite ← coalesce (opt_chain rateLimits inviteUserRateLimit)
                     (prop instanceRateLimiterConfig inviteUserRateLimit);
        v_mfa ← coalesce (opt_chain rateLimits mfaRateLimit)
                  (prop instanceRateLimiterConfig mfaRateLimit);
        v_creation ← coalesce (opt_chain rateLimits creationLimit)
                       (prop instanceRateLimiterConfig creationLimit);
        o ← new_object
              {| readLimit := v_read;
                 publicEndpointLimit := v_public;
                 writeLimit := v_write;
                 secretsLimit := v_secrets;
                 authRateLimit := v_auth;
                 inviteUserRateLimit := v_invite;
                 mfaRateLimit := v_mfa;
                 creationLimit := v_creation |};
        set_req_rateLimits o
  end.

End Hook.

(** [server.decorateRequest("rateLimits", null)]: a request enters the hook
    with its [rateLimits] property [null]. *)
Definition incoming (st : Store) : HookState :=
  {| store := st; req_rateLimits := null; trace := [] |}.

(** The registry's current snapshot: the object the registry designates. *)
Definition snapshot (st : Store) : option RateLimits :=
  heap st !! registry st.

(** The limits a request carries, as downstream middleware reads them:
    the object [req.rateLimits] refers to, if it refers to one. *)
Definition resolved (s : HookState) : option RateLimits :=
  match req_rateLimits s with
  | val r => heap (store s) !! r
  | _ => None
  end.

(** What the plan says for a category: [plan.rateLimits?.<category>]. *)
Definition plan_limit (p : Plan) (c : Category) : Js Z :=
  opt_chain (rateLimits p) (limit_of c).

(** The per-category merge of rule 3: the plan's value when it is present
    and non-null, otherwise the snapshot's. *)
Definition merge_category (p : Plan) (reg : RateLimits) (c : Category) : Js Z :=
  match plan_limit p c with
  | val n => val n
  | _ => limit_of c reg
  end.

Definition merge_limits (p : Plan) (reg : RateLimits) : RateLimits :=
  {| readLimit := merge_category p reg Read;
     publicEndpointLimit := merge_category p reg PublicEndpoint;
     writeLimit := merge_category p reg Write;
     secretsLimit := merge_category p reg Secrets;
     authRateLimit := merge_category p reg Auth;
     inviteUserRateLimit := merge_category p reg InviteUser;
     mfaRateLimit := merge_category p reg Mfa;
     creationLimit := merge_category p reg Creation |}.

(** Modelled from the spec: the registry's mutator is not among the
    sources; the registry publishes immutable snapshot objects and is
    updated by swapping the reference it holds.  A collaborator that runs
    while the hook is suspended may therefore add objects to the store and
    re-point the registry, but leaves every existing object as it is. *)
Definition snapshots_immutable
    (license_getPlan : string → Store → Outcome Plan * Store) : Prop :=
  ∀ org st, heap st ⊆ heap (license_getPlan org st).2.

(** The organisations whose plan was looked up, in call order. *)
Definition plan_lookups (t : list Event) : list string :=
  omap (λ e, match e with EvGetPlan org => Some org | _ => None end) t.

(** The number of times the registry was read. *)
Definition is_registry_read (e : Event) : bool :=
  match e with
  | EvGetRateLimiterConfig => true
  | _ => false
  end.

Definition registry_reads (t : list Event) : nat :=
  length (List.filter is_registry_read t).

(** The calls made before the auth check. *)
Definition prelude : list Event := [EvGetConfig; EvGetRateLimiterConfig].

(** The plan-merged branch of the hook: the object literal and the
    assignment that follow the two early returns. *)
Definition merged_branch (r : ref) (plan : Plan) : M unit :=
  v_read ← coalesce (plan_limit plan Read) (prop r (limit_of Read));
  v_public ← coalesce (plan_limit plan PublicEndpoint)
               (prop r (limit_of PublicEndpoint));
  v_write ← coalesce (plan_limit plan Write) (prop r (limit_of Write));
  v_secrets ← coalesce (plan_limit plan Secrets) (prop r (limit_of Secrets));
  v_auth ← coalesce (plan_limit plan Auth) (prop r (limit_of Auth));
  v_invite ← coalesce (plan_limit plan InviteUser)
               (prop r (limit_of InviteUser));
  v_mfa ← coalesce (plan_limit plan Mfa) (prop r (limit_of Mfa));
  v_creation ← coalesce (plan_limit plan Creation)
                 (prop r (limit_of Creation));
  o ← new_object (mkRateLimits v_read v_public v_write v_secrets
                    v_auth v_invite v_mfa v_creation);
  set_req_rateLimits o.

(** ** Scenarios *)

(** An instance configuration with reads at 300 and writes at 60. *)
Definition instance_defaults : RateLimits :=
  {| readLimit := val 300;
     publicEndpointLimit := val 30;
     writeLimit := val 60;
     secretsLimit := val 40;
     authRateLimit := val 60;
     inviteUserRateLimit := val 30;
     mfaRateLimit := val 20;
     creationLimit := val 30 |}.

(** A later configuration, as an administrative sync would install it. *)
Definition synced_defaults : RateLimits :=
  {| readLimit := val 1000;
     publicEndpointLimit := val 100;
     writeLimit := val 500;
     secretsLimit := val 200;
     authRateLimit := val 120;
     inviteUserRateLimit := val 60;
     mfaRateLimit := val 40;
     creationLimit := val 60 |}.

(** A process whose registry designates [instance_defaults]. *)
Definition store0 : Store :=
  {| heap := {[ 1%positive := instance_defaults ]}; registry := 1%positive |}.

(** Plan limits of an outdated license: only [readLimit] is set. *)
Definition read_only_limits : RateLimits :=
  {| readLimit := val 9999;
     publicEndpointLimit := undefined;
     writeLimit := undefined;
     secretsLimit := null;
     authRateLimit := undefined;
     inviteUserRateLimit := undefined;
     mfaRateLimit := undefined;
     creationLimit := undefined |}.

(** A plan entitled to custom limits that sets only the read limit. *)
Definition custom_read_plan : Plan :=
  {| customRateLimits := true; rateLimits := val read_only_limits |}.

(** A plan without custom limits whose [rateLimits] record is [null]. *)
Definition bare_plan : Plan :=
  {| customRateLimits := false; rateLimits := null |}.

Definition acme : AuthCtx := {| orgId := "acme" |}.

Definition cloud : AppCfg := {| isCloud := true |}.
Definition self_hosted : AppCfg := {| isCloud := false |}.

(** A license service that answers every lookup with [p]. *)
Definition plan_service (p : Plan) : string → Store → Outcome Plan * Store :=
  λ _ st, (Returned p, st).

(** A license service whose lookups fail. *)
Definition failing_service (e : Error) : string → Store → Outcome Plan * Store :=
  λ _ st, (Thrown e, st).

(** A license service that answers with [p] while, during the lookup, an
    administrative sync installs [o] as the registry's new snapshot. *)
Definition syncing_service (p : Plan) (o : RateLimits)
    : string → Store → Outcome Plan * Store :=
  λ _ st,
    (Returned p,
     {| heap := <[fresh (dom (heap st)) := o]> (heap st);
        registry := fresh (dom (heap st)) |}).

(** The same service with the plan's [customRateLimits] flag forced to [b]. *)
Definition with_customRateLimits (b : bool)
    (gp : string → Store → Outcome Plan * Store)
    : string → Store → Outcome Plan * Store :=
  λ org st,
    (match (gp org st).1 with
     | Returned p => Returned {| customRateLimits := b; rateLimits := rateLimits p |}
     | Thrown e => Thrown e
     end,
     (gp org st).2).

(** The license service as a request meets it when another request's hook
    runs first, while this one is suspended in its own plan lookup. *)
Definition interleaved (cfg : AppCfg)
    (gp : string → Store → Outcome Plan * Store) (other : option AuthCtx)
    : string → Store → Outcome Plan * Store :=
  λ org st, gp org (store (onRequest cfg gp other (incoming st)).2).

(** The limits a request holding [r] reads in the store [st]. *)
Definition limits_in (st : Store) (r : Js ref) : option RateLimits :=
  resolved {| store := st; req_rateLimits := r; trace := [] |}.

(** ** The user router

    [backend/src/server/routes/v2/user-router.ts]: the routes
    [registerUserRouter] registers, in registration order.  The OpenAPI
    [description] and [security] annotations are left out. *)

Module UserRouter.

Inductive Method : Type := GET | POST | PATCH | PUT | DELETE.

(** The members of [AuthMode] the router names. *)
Inductive AuthMode : Type := JWT | API_KEY.

(** The limiters of [@app/server/config/rateLimiter] the router names. *)
Inductive Limiter : Type := authRateLimit | readLimit | writeLimit.

(** The lifecycle stage at which a route runs [verifyAuth]. *)
Inductive Stage : Type := preHandler | onRequest.

Global Instance Method_eq_dec : EqDecision Method.
Proof. solve_decision. Defined.

Global Instance AuthMode_eq_dec : EqDecision AuthMode.
Proof. solve_decision. Defined.

Global Instance Limiter_eq_dec : EqDecision Limiter.
Proof. solve_decision. Defined.

(** JSON values, as bodies, parameters and replies carry them. *)
#[local] Unset Elimination Schemes.
Inductive Json : Type :=
| JUndefined : Json
| JNull : Json
| JBool : bool → Json
| JNum : Z → Json
| JStr : string → Json
| JArr : list Json → Json
| JObj : list (string * Json) → Json.
#[local] Set Elimination Schemes.

(** The zod validators the schemas use. *)
Inductive Validator : Type :=
| z_string_trim          (* z.string().trim() *)
| z_boolean              (* z.boolean() *)
| z_number               (* z.number() *)
| z_authMethods_min1.    (* z.nativeEnum(AuthMethod).array().min(1) *)

(** The shape of a route's 200 response schema: an object with the given
    keys, or an array. *)
Inductive Response : Type :=
| z_object : list string → Response
| z_array : Response.

(** What a handler reads of the request: the authenticated principal
    [req.permission.id], and the parsed [req.body] and [req.params]. *)
Record Request : Type := mkRequest {
  permission_id : string;
  body : gmap string Json;
  params : gmap string Json
}.

(** Property read on a parsed object: [undefined] when the key is absent. *)
Definition get (m : gmap string Json) (k : string) : Json :=
  default JUndefined (m !! k).

(** An async handler: it returns a reply, or awaits a call
    [server.services.<service>.<method>(args)] and goes on with its
    result.  There is no construct to catch what a call throws. *)
Inductive Handler : Type :=
| Reply : Json → Handler
| Await : string → string → list Json → (Json → Handler) → Handler.

Record Route : Type := mkRoute {
  method : Method;
  url : string;
  rateLimit : Limiter;                         (* config.rateLimit *)
  schema_body : list (string * Validator);     (* schema.body, if any *)
  schema_params : list (string * Validator);   (* schema.params, if any *)
  schema_response : Response;                  (* schema.response[200] *)
  stage : Stage;
  authModes : list AuthMode;                   (* verifyAuth([...]) *)
  requireOrg : option bool;                    (* verifyAuth(_, { requireOrg }) *)
  handler : Request → Handler
}.

(** [req.permission.id] as a call argument. *)
Definition me (req : Request) : Json := JStr (permission_id req).

Definition routes : list Route :=
  [ {| method := POST; url := "/me/emails/code";
       rateLimit := authRateLimit;
       schema_body := []; schema_params := [];
       schema_response := z_object [];
       stage := preHandler; authModes := [JWT]; requireOrg := None;
       handler := λ req,
         Await "user" "sendEmailVerificationCode" [me req]
           (λ _, Reply (JObj [])) |};
    {| method := POST; url := "/me/emails/verify";
       rateLimit := authRateLimit;
       schema_body := [("code", z_string_trim)]; schema_params := [];
       schema_response := z_object [];
       stage := preHandler; authModes := [JWT]; requireOrg := None;
       handler := λ req,
         Await "user" "verifyEmailVerificationCode"
           [me req; get (body req) "code"]
           (λ _, Reply (JObj [])) |};
    {| method := GET; url := "/me/users/same-email";
       rateLimit := readLimit;
       schema_body := []; schema_params := [];
       schema_response := z_object ["users"];
       stage := preHandler; authModes := [JWT]; requireOrg := None;
       handler := λ req,
         Await "user" "listUsersWithSameEmail" [me req]
           (λ users, Reply (JObj [("users", users)])) |};
    {| method := PATCH; url := "/me/mfa";
       rateLimit := writeLimit;
       schema_body := [("isMfaEnabled", z_boolean)]; schema_params := [];
       schema_response := z_object ["user"];
       stage := preHandler; authModes := [JWT; API_KEY]; requireOrg := None;
       handler := λ req,
         Await "user" "toggleUserMfa" [me req; get (body req) "isMfaEnabled"]
           (λ user, Reply (JObj [("user", user)])) |};
    {| method := PATCH; url := "/me/name";
       rateLimit := writeLimit;
       schema_body := [("firstName", z_string_trim); ("lastName", z_string_trim)];
       schema_params := [];
       schema_response := z_object ["user"];
       stage := preHandler; authModes := [JWT; API_KEY]; requireOrg := None;
       handler := λ req,
         Await "user" "updateUserName"
           [me req; get (body req) "firstName"; get (body req) "lastName"]
           (λ user, Reply (JObj [("user", user)])) |};
    {| method := PUT; url := "/me/auth-methods";
       rateLimit := writeLimit;
       schema_body := [("authMethods", z_authMethods_min1)];
       schema_params := [];
       schema_response := z_object ["user"];
       stage := preHandler; authModes := [JWT; API_KEY];
       requireOrg := Some false;
       handler := λ req,
         Await "user" "updateAuthMethods"
           [me req; get (body req) "authMethods"]
           (λ user, Reply (JObj [("user", user)])) |};
    {| method := GET; url := "/me/organizations";
       rateLimit := readLimit;
       schema_body := []; schema_params := [];
       schema_response := z_object ["organizations"];
       stage := onRequest; authModes := [JWT; API_KEY]; requireOrg := None;
       handler := λ req,
         Await "org" "findAllOrganizationOfUser" [me req]
           (λ organizations,
              Reply (JObj [("organizations", organizations)])) |};
    {| method := GET; url := "/me/api-keys";
       rateLimit := readLimit;
       schema_body := []; schema_params := [];
       schema_response := z_array;
       stage := onRequest; authModes := [JWT]; requireOrg := None;
       handler := λ req,
         Await "apiKey" "getMyApiKeys" [me req] (λ apiKeys, Reply apiKeys) |};
    {| method := POST; url := "/me/api-keys";
       rateLimit := writeLimit;
       schema_body := [("name", z_string_trim); ("expiresIn", z_number)];
       schema_params := [];
       schema_response := z_object ["apiKey"; "apiKeyData"];
       stage := onRequest; authModes := [JWT]; requireOrg := None;
       handler := λ req,
         Await "apiKey" "createApiKey"
           [me req; get (body req) "name"; get (body req) "expiresIn"]
           (λ apiKeys, Reply apiKeys) |};
    {| method := DELETE; url := "/me/api-keys/:apiKeyDataId";
       rateLimit := writeLimit;
       schema_body := [];
       schema_params := [("apiKeyDataId", z_string_trim)];
       schema_response := z_object ["apiKeyData"];
       stage := onRequest; authModes := [JWT]; requireOrg := None;
       handler := λ req,
         Await "apiKey" "deleteApiKey"
           [me req; get (params req) "apiKeyDataId"]
           (λ apiKeyData, Reply (JObj [("apiKeyData", apiKeyData)])) |};
    {| method := GET; url := "/me/sessions";
       rateLimit := readLimit;
       schema_body := []; schema_params := [];
       schema_response := z_array;
       stage := onRequest; authModes := [JWT]; requireOrg := None;
       handler := λ req,
         Await "authToken" "getTokenSessionByUser" [me req]
           (λ sessions, Reply sessions) |};
    {| method := DELETE; url := "/me/sessions";
       rateLimit := writeLimit;
       schema_body := []; schema_params := [];
       schema_response := z_object ["message"];
       stage := onRequest; authModes := [JWT]; requireOrg := None;
       handler := λ req,
         Await "authToken" "revokeAllMySessions" [me req]
           (λ _, Reply (JObj [("message",
                               JStr "Successfully revoked all sessions")])) |};
    {| method := GET; url := "/me";
       rateLimit := readLimit;
       schema_body := []; schema_params := [];
       schema_response := z_object ["user"];
       stage := onRequest; authModes := [JWT; API_KEY]; requireOrg := None;
       handler := λ req,
         Await "user" "getMe" [me req]
           (λ user, Reply (JObj [("user", user)])) |};
    {| method := DELETE; url := "/me";
       rateLimit := writeLimit;
       schema_body := []; schema_params := [];
       schema_response := z_object ["user"];
       stage := onRequest; authModes := [JWT]; requireOrg := None;
       handler := λ req,
         Await "user" "deleteMe" [me req]
           (λ user, Reply (JObj [("user", user)])) |} ].

(** [registerUserRouter(server)]: each [server.route] call adds a route to
    those the server has. *)
Definition registerUserRouter (server : list Route) : list Route :=
  server ++ routes.

Section Run.

(** The services behind [server.services], acting on some world [W]: a
    call returns a value or throws, and may change the world. *)
Variable W : Type.
Variable services : string → string → list Json → W → Outcome Json * W.

(** Runs a handler to its reply; a call that throws ends the run. *)
Fixpoint run (h : Handler) (w : W) : Outcome Json * W :=
  match h with
  | Reply v => (Returned v, w)
  | Await service meth args k =>
      match services service meth args w with
      | (Returned v, w') => run (k v) w'
      | (Thrown e, w') => (Thrown e, w')
      end
  end.

End Run.

(** The calls a handler makes, given what each call in turn returns. *)
Fixpoint calls (h : Handler) (results : list Json)
    : list (string * string * list Json) :=
  match h with
  | Reply _ => []
  | Await service meth args k =>
      (service, meth, args) ::
      match results with
      | [] => []
      | v :: rest => calls (k v) rest
      end
  end.

(** Two requests agree on the keys a schema declares. *)
Definition agree_on (schema : list (string * Validator))
    (m1 m2 : gmap string Json) : Prop :=
  ∀ k, k ∈ schema.*1 → get m1 k = get m2 k.

End UserRouter.

(** ** Running the hook *)

Lemma bind_run {A B} (m : M A) (k : A → M B) (s : HookState) :
  (m ≫= k) s =
  match m s with
  | (Returned a, s') => k a s'
  | (Thrown e, s') => (Thrown e, s')
  end.
Proof. reflexivity. Qed.

Lemma coalesce_prop (r : ref) (c : Category) (p : Plan) (s : HookState)
    (reg : RateLimits) :
  heap (store s) !! r = Some reg →
  coalesce (plan_limit p c) (prop r (limit_of c)) s
  = (Returned (merge_category p reg c), s).
Proof.
  intros Hr. unfold coalesce, merge_category, prop.
  destruct (plan_limit p c); cbn; rewrite ?Hr; reflexivity.
Qed.

Section Runs.

Variable cfg : AppCfg.
Variable gp : string → Store → Outcome Plan * Store.

Lemma getConfig_run (s : HookState) :
  getConfig cfg s =
  (Returned cfg,
   {| store := store s; req_rateLimits := req_rateLimits s;
      trace := trace s ++ [EvGetConfig] |}).
Proof. reflexivity. Qed.

Lemma getRateLimiterConfig_run (s : HookState) :
  getRateLimiterConfig s =
  (Returned (registry (store s)),
   {| store := store s; req_rateLimits := req_rateLimits s;
      trace := trace s ++ [EvGetRateLimiterConfig] |}).
Proof. reflexivity. Qed.

Lemma getPlan_run (org : string) (s : HookState) :
  getPlan gp org s =
  ((gp org (store s)).1,
   {| store := (gp org (store s)).2; req_rateLimits := req_rateLimits s;
      trace := trace s ++ [EvGetPlan org] |}).
Proof.
  unfold getPlan, await. rewrite bind_run. cbn.
  by destruct (gp org (store s)).
Qed.

(** The hook up to the auth check. *)
Lemma onRequest_prelude (req_auth : option AuthCtx) (s : HookState) :
  onRequest cfg gp req_auth s =
  let s2 := {| store := store s; req_rateLimits := req_rateLimits s;
               trace := trace s ++ prelude |} in
  match req_auth with
  | None => set_req_rateLimits (registry (store s)) s2
  | Some auth =>
      (plan ← getPlan gp (orgId auth);
       if customRateLimits plan && negb (isCloud cfg) then
         set_req_rateLimits (registry (store s))
       else merged_branch (registry (store s)) plan) s2
  end.
Proof.
  unfold onRequest. rewrite bind_run, getConfig_run.
  rewrite bind_run, getRateLimiterConfig_run.
  cbn [store req_rateLimits trace]. rewrite <- app_assoc.
  by destruct req_auth.
Qed.

(** A defaulted property either reads without touching the state or
    throws without touching it. *)
Lemma coalesce_cases (a : Js Z) (r : ref) (f : RateLimits → Js Z)
    (s : HookState) :
  (∃ v, coalesce a (prop r f) s = (Returned v, s))
  ∨ coalesce a (prop r f) s = (Thrown TypeError, s).
Proof.
  unfold coalesce, prop.
  destruct (nullish a); [destruct (heap (store s) !! r)|]; eauto.
Qed.

Lemma merged_branch_trace (r : ref) (p : Plan) (s : HookState) :
  trace (merged_branch r p s).2 = trace s.
Proof.
  unfold merged_branch.
  do 8 (rewrite bind_run;
        match goal with
        | |- context [coalesce ?a (prop ?r ?f) ?s] =>
            destruct (coalesce_cases a r f s) as [[? ->] | ->]; [|done]
        end).
  reflexivity.
Qed.

Lemma merged_branch_run (r : ref) (p : Plan) (s : HookState)
    (reg : RateLimits) :
  heap (store s) !! r = Some reg →
  merged_branch r p s =
  (Returned tt,
   {| store := {| heap := <[fresh (dom (heap (store s))) := merge_limits p reg]>
                            (heap (store s));
                  registry := registry (store s) |};
      req_rateLimits := val (fresh (dom (heap (store s))));
      trace := trace s |}).
Proof.
  intros Hreg. unfold merged_branch.
  do 8 (rewrite bind_run; erewrite coalesce_prop by exact Hreg).
  reflexivity.
Qed.

(** The calls of one run, whatever its outcome. *)
Lemma onRequest_trace (req_auth : option AuthCtx) (s : HookState) :
  trace (onRequest cfg gp req_auth s).2 =
  trace s ++ prelude ++
    match req_auth with
    | None => []
    | Some a => [EvGetPlan (orgId a)]
    end.
Proof.
  rewrite onRequest_prelude. cbn zeta. destruct req_auth as [a|]; [|done].
  rewrite bind_run, getPlan_run.
  destruct (gp (orgId a) _) as [[p|e] st']; cbn.
  - destruct (customRateLimits p && negb (isCloud cfg)); cbn.
    + by rewrite <- app_assoc.
    + rewrite merged_branch_trace. cbn. by rewrite <- app_assoc.
  - by rewrite <- app_assoc.
Qed.

Lemma onRequest_public (s : HookState) :
  onRequest cfg gp None s =
  (Returned tt,
   {| store := store s;
      req_rateLimits := val (registry (store s));
      trace := trace s ++ prelude |}).
Proof. by rewrite onRequest_prelude. Qed.

Lemma onRequest_thrown (a : AuthCtx) (s : HookState) (e : Error) (st' : Store) :
  gp (orgId a) (store s) = (Thrown e, st') →
  onRequest cfg gp (Some a) s =
  (Thrown e,
   {| store := st';
      req_rateLimits := req_rateLimits s;
      trace := trace s ++ prelude ++ [EvGetPlan (orgId a)] |}).
Proof.
  intros Hgp. rewrite onRequest_prelude. cbn zeta.
  rewrite bind_run, getPlan_run. cbn. rewrite Hgp. cbn.
  by rewrite <- app_assoc.
Qed.

Lemma onRequest_override (a : AuthCtx) (s : HookState) (p : Plan) (st' : Store) :
  gp (orgId a) (store s) = (Returned p, st') →
  customRateLimits p && negb (isCloud cfg) = true →
  onRequest cfg gp (Some a) s =
  (Returned tt,
   {| store := st';
      req_rateLimits := val (registry (store s));
      trace := trace s ++ prelude ++ [EvGetPlan (orgId a)] |}).
Proof.
  intros Hgp Hflag. rewrite onRequest_prelude. cbn zeta.
  rewrite bind_run, getPlan_run. cbn. rewrite Hgp. cbn. rewrite Hflag.
  cbn. by rewrite <- app_assoc.
Qed.

Lemma onRequest_merged (a : AuthCtx) (s : HookState) (p : Plan) (st' : Store)
    (reg : RateLimits) :
  gp (orgId a) (store s) = (Returned p, st') →
  customRateLimits p && negb (isCloud cfg) = false →
  heap st' !! registry (store s) = Some reg →
  onRequest cfg gp (Some a) s =
  (Returned tt,
   {| store := {| heap := <[fresh (dom (heap st')) := merge_limits p reg]> (heap st');
                  registry := registry st' |};
      req_rateLimits := val (fresh (dom (heap st')));
      trace := trace s ++ prelude ++ [EvGetPlan (orgId a)] |}).
Proof.
  intros Hgp Hflag Hreg. rewrite onRequest_prelude. cbn zeta.
  rewrite bind_run, getPlan_run. cbn. rewrite Hgp. cbn. rewrite Hflag.
  erewrite merged_branch_run by exact Hreg. cbn. by rewrite <- app_assoc.
Qed.

End Runs.

(** ** The resolved limits under immutable snapshots *)

Section Resolution.

Variable cfg : AppCfg.
Variable gp : string → Store → Outcome Plan * Store.
Hypothesis gp_immutable : snapshots_immutable gp.

Lemma snapshot_survives (org : string) (st : Store) (reg : RateLimits) :
  snapshot st = Some reg →
  heap (gp org st).2 !! registry st = Some reg.
Proof.
  intros Hreg. eapply lookup_weaken; [exact Hreg|]. apply gp_immutable.
Qed.

Lemma resolved_fresh (st : Store) (o : RateLimits) (t : list Event) :
  resolved
    {| store := {| heap := <[fresh (dom (heap st)) := o]> (heap st);
                   registry := registry st |};
       req_rateLimits := val (fresh (dom (heap st)));
       trace := t |} = Some o.
Proof. unfold resolved. cbn. apply lookup_insert_eq. Qed.

(** The outcome of a run, by branch. *)
Lemma onRequest_resolved (req_auth : option AuthCtx) (s : HookState)
    (reg : RateLimits) :
  snapshot (store s) = Some reg →
  let out := onRequest cfg gp req_auth s in
  match req_auth with
  | None => out.1 = Returned tt ∧ resolved out.2 = Some reg
  | Some a =>
      match (gp (orgId a) (store s)).1 with
      | Thrown e =>
          out.1 = Thrown e ∧ req_rateLimits out.2 = req_rateLimits s
      | Returned p =>
          out.1 = Returned tt ∧
          resolved out.2 =
            Some (if customRateLimits p && negb (isCloud cfg) then reg
                  else merge_limits p reg)
      end
  end.
Proof.
  intros Hreg out. subst out. destruct req_auth as [a|].
  - pose proof (snapshot_survives (orgId a) _ _ Hreg) as Hkept.
    destruct (gp (orgId a) (store s)) as [[p|e] st'] eqn:Hgp; cbn in *.
    + destruct (customRateLimits p && negb (isCloud cfg)) eqn:Hflag.
      * erewrite onRequest_override by eauto. split; [done|exact Hkept].
      * erewrite onRequest_merged by eauto. split; [done|].
        apply resolved_fresh.
    + by erewrite onRequest_thrown.
  - by rewrite onRequest_public.
Qed.

End Resolution.

Lemma plan_service_immutable (p : Plan) : snapshots_immutable (plan_service p).
Proof. intros org st. reflexivity. Qed.

Lemma syncing_service_immutable (p : Plan) (o : RateLimits) :
  snapshots_immutable (syncing_service p o).
Proof.
  intros org st. cbn. apply insert_subseteq, not_elem_of_dom, is_fresh.
Qed.

(** ** Properties of the resolver *)

(** C1: a request without auth context gets the registry's current
    snapshot as its rate limits: [req.rateLimits] is the very object the
    registry designates, the store is left as it was, and this holds
    whatever the license service would have answered. *)
Theorem public_request_gets_snapshot
    (cfg : AppCfg) (gp : string → Store → Outcome Plan * Store)
    (s : HookState) :
  (onRequest cfg gp None s).1 = Returned tt
  ∧ req_rateLimits (onRequest cfg gp None s).2 = val (registry (store s))
  ∧ store (onRequest cfg gp None s).2 = store s
  ∧ resolved (onRequest cfg gp None s).2 = snapshot (store s).
Proof. rewrite onRequest_public. by repeat split. Qed.

(** C2: for an authenticated request whose plan has [customRateLimits] set
    on a deployment that is not cloud, the request gets the registry's
    snapshot: [req.rateLimits] is the object the registry designated when
    the hook read it, whatever [plan.rateLimits] holds. *)
Theorem self_hosted_custom_gets_snapshot
    (cfg : AppCfg) (gp : string → Store → Outcome Plan * Store)
    (a : AuthCtx) (s : HookState) (p : Plan) (st' : Store) (reg : RateLimits) :
  snapshots_immutable gp →
  snapshot (store s) = Some reg →
  gp (orgId a) (store s) = (Returned p, st') →
  customRateLimits p = true →
  isCloud cfg = false →
  (onRequest cfg gp (Some a) s).1 = Returned tt
  ∧ req_rateLimits (onRequest cfg gp (Some a) s).2 = val (registry (store s))
  ∧ resolved (onRequest cfg gp (Some a) s).2 = Some reg.
Proof.
  intros Himm Hreg Hgp Hcustom Hcloud.
  pose proof (onRequest_resolved cfg gp Himm (Some a) s reg Hreg) as Hres.
  cbn in Hres. rewrite Hgp in Hres. cbn in Hres.
  rewrite Hcustom, Hcloud in Hres. destruct Hres as [Hout Hres].
  repeat split; [done| |done].
  erewrite onRequest_override; [done|exact Hgp|by rewrite Hcustom, Hcloud].
Qed.

(** Scenario B: self-hosted, [customRateLimits] set, plan read limit 9999:
    the request keeps the instance's 300. *)
Lemma self_hosted_custom_gets_snapshot_witness :
  let out := onRequest self_hosted (plan_service custom_read_plan)
               (Some acme) (incoming store0) in
  out.1 = Returned tt
  ∧ req_rateLimits out.2 = val 1%positive
  ∧ resolved out.2 = Some instance_defaults.
Proof.
  apply (self_hosted_custom_gets_snapshot self_hosted
           (plan_service custom_read_plan)
           acme (incoming store0) custom_read_plan store0 instance_defaults).
  - intros org st. reflexivity.
  - reflexivity.
  - reflexivity.
  - reflexivity.
  - reflexivity.
Defined.

Lemma merge_limits_category (p : Plan) (reg : RateLimits) (c : Category) :
  limit_of c (merge_limits p reg) = merge_category p reg c.
Proof. by destruct c. Qed.

Lemma override_off (cfg : AppCfg) (p : Plan) :
  customRateLimits p = false ∨ isCloud cfg = true →
  customRateLimits p && negb (isCloud cfg) = false.
Proof. intros [-> | ->]; [done|]. by rewrite andb_false_r. Qed.

(** C3: for an authenticated request whose plan has [customRateLimits]
    unset, or on a cloud deployment, each category is resolved on its own:
    it is the plan's value when [plan.rateLimits] has one that is present
    and non-null, and the registry snapshot's value for that category
    otherwise. *)
Theorem plan_merge_per_category
    (cfg : AppCfg) (gp : string → Store → Outcome Plan * Store)
    (a : AuthCtx) (s : HookState) (p : Plan) (st' : Store) (reg : RateLimits)
    (c : Category) :
  snapshots_immutable gp →
  snapshot (store s) = Some reg →
  gp (orgId a) (store s) = (Returned p, st') →
  customRateLimits p = false ∨ isCloud cfg = true →
  ∃ o : RateLimits,
    (onRequest cfg gp (Some a) s).1 = Returned tt
    ∧ resolved (onRequest cfg gp (Some a) s).2 = Some o
    ∧ (∀ n, plan_limit p c = val n → limit_of c o = val n)
    ∧ (nullish (plan_limit p c) = true → limit_of c o = limit_of c reg).
Proof.
  intros Himm Hreg Hgp Hflag.
  pose proof (onRequest_resolved cfg gp Himm (Some a) s reg Hreg) as Hres.
  cbn in Hres. rewrite Hgp in Hres. cbn in Hres.
  rewrite (override_off _ _ Hflag) in Hres. destruct Hres as [Hout Hres].
  exists (merge_limits p reg). repeat split; [done|done| |].
  - intros n Hn. rewrite merge_limits_category. unfold merge_category.
    by rewrite Hn.
  - intros Hn. rewrite merge_limits_category. unfold merge_category.
    by destruct (plan_limit p c).
Qed.

(** Scenario C: cloud, [customRateLimits] set, plan read limit 9999 and no
    write limit: reads resolve to 9999, writes to the instance's 60. *)
Lemma plan_merge_per_category_witness :
  let out := onRequest cloud (plan_service custom_read_plan)
               (Some acme) (incoming store0) in
  (∃ o, out.1 = Returned tt ∧ resolved out.2 = Some o
        ∧ (∀ n, val 9999 = val n → readLimit o = val n)
        ∧ (false = true → readLimit o = val 300))
  ∧ (∃ o, out.1 = Returned tt ∧ resolved out.2 = Some o
          ∧ (∀ n, @undefined Z = val n → writeLimit o = val n)
          ∧ (true = true → writeLimit o = val 60)).
Proof.
  split.
  - apply (plan_merge_per_category cloud (plan_service custom_read_plan)
             acme (incoming store0) custom_read_plan store0
             instance_defaults Read).
    + intros org st. reflexivity.
    + reflexivity.
    + reflexivity.
    + right. reflexivity.
  - apply (plan_merge_per_category cloud (plan_service custom_read_plan)
             acme (incoming store0) custom_read_plan store0
             instance_defaults Write).
    + intros org st. reflexivity.
    + reflexivity.
    + reflexivity.
    + right. reflexivity.
Defined.

Lemma populated_merge (p : Plan) (reg : RateLimits) :
  populated reg = true → populated (merge_limits p reg) = true.
Proof.
  unfold populated. rewrite !forallb_forall. intros Hreg c Hc.
  rewrite merge_limits_category. unfold merge_category.
  destruct (plan_limit p c); auto.
Qed.

(** C4: given a registry snapshot with a number for every category, and
    whatever the auth state and the plan the lookup returns (any of its
    limits may be missing or [null]), the hook returns and the resolved
    limits hold a number for each of the eight categories. *)
Theorem resolved_limits_populated
    (cfg : AppCfg) (gp : string → Store → Outcome Plan * Store)
    (req_auth : option AuthCtx) (s : HookState) (reg : RateLimits) :
  snapshots_immutable gp →
  snapshot (store s) = Some reg →
  populated reg = true →
  (∀ a, req_auth = Some a → ∃ p, (gp (orgId a) (store s)).1 = Returned p) →
  ∃ o : RateLimits,
    (onRequest cfg gp req_auth s).1 = Returned tt
    ∧ resolved (onRequest cfg gp req_auth s).2 = Some o
    ∧ populated o = true.
Proof.
  intros Himm Hreg Hpop Hplan.
  pose proof (onRequest_resolved cfg gp Himm req_auth s reg Hreg) as Hres.
  cbn zeta in Hres. destruct req_auth as [a|].
  - destruct (Hplan a eq_refl) as [p Hp]. rewrite Hp in Hres.
    destruct Hres as [Hout Hres]. eexists. repeat split; [done|exact Hres|].
    destruct (customRateLimits p && negb (isCloud cfg)); [done|].
    by apply populated_merge.
  - destruct Hres as [Hout Hres]. by exists reg.
Qed.

Lemma resolved_limits_populated_witness :
  ∃ o : RateLimits,
    (onRequest cloud (plan_service custom_read_plan) (Some acme)
       (incoming store0)).1 = Returned tt
    ∧ resolved (onRequest cloud (plan_service custom_read_plan) (Some acme)
                  (incoming store0)).2 = Some o
    ∧ populated o = true.
Proof.
  apply (resolved_limits_populated cloud (plan_service custom_read_plan)
           (Some acme) (incoming store0) instance_defaults).
  - intros org st. reflexivity.
  - reflexivity.
  - reflexivity.
  - intros a _. exists custom_read_plan. reflexivity.
Defined.

(** C5: the resolved limits are a function of the auth state, the plan the
    lookup returns, the deployment flag and the registry snapshot alone.
    Two runs on requests entering the hook, in stores that may otherwise
    differ (the second store may be the one the first run left behind),
    agree on their outcome and on the limits they resolve whenever the
    snapshot is the same and the lookup answers the same. *)
Theorem resolution_deterministic
    (cfg : AppCfg) (gp : string → Store → Outcome Plan * Store)
    (req_auth : option AuthCtx) (st1 st2 : Store) (reg : RateLimits) :
  snapshots_immutable gp →
  snapshot st1 = Some reg →
  snapshot st2 = Some reg →
  (∀ a, req_auth = Some a → (gp (orgId a) st1).1 = (gp (orgId a) st2).1) →
  (onRequest cfg gp req_auth (incoming st1)).1
    = (onRequest cfg gp req_auth (incoming st2)).1
  ∧ resolved (onRequest cfg gp req_auth (incoming st1)).2
    = resolved (onRequest cfg gp req_auth (incoming st2)).2.
Proof.
  intros Himm Hreg1 Hreg2 Hsame.
  pose proof (onRequest_resolved cfg gp Himm req_auth (incoming st1) reg Hreg1)
    as H1.
  pose proof (onRequest_resolved cfg gp Himm req_auth (incoming st2) reg Hreg2)
    as H2.
  cbn zeta in H1, H2. destruct req_auth as [a|].
  - cbn [store incoming] in H1, H2. rewrite <- (Hsame a eq_refl) in H2.
    destruct (gp (orgId a) st1).1 as [p|e].
    + destruct H1 as [-> ->], H2 as [-> ->]. done.
    + destruct H1 as [-> H1], H2 as [-> H2]. split; [done|].
      unfold resolved. by rewrite H1, H2.
  - destruct H1 as [-> ->], H2 as [-> ->]. done.
Qed.

(** Resolving a second time, in the store the first run left behind, gives
    the same limits, though in a new object. *)
Lemma resolution_deterministic_witness :
  let first := onRequest cloud (plan_service custom_read_plan) (Some acme)
                 (incoming store0) in
  let second := onRequest cloud (plan_service custom_read_plan) (Some acme)
                  (incoming (store first.2)) in
  (first.1 = second.1 ∧ resolved first.2 = resolved second.2)
  ∧ req_rateLimits first.2 ≠ req_rateLimits second.2.
Proof.
  split.
  - apply (resolution_deterministic cloud (plan_service custom_read_plan)
             (Some acme) store0
             (store (onRequest cloud (plan_service custom_read_plan)
                       (Some acme) (incoming store0)).2)
             instance_defaults).
    + intros org st. reflexivity.
    + reflexivity.
    + vm_compute. reflexivity.
    + intros a _. reflexivity.
  - vm_compute. discriminate.
Defined.

(** C6: when the plan lookup of an authenticated request throws, the hook
    throws the same error.  It attaches nothing: [req.rateLimits] is what it
    was on entry ([null] for an incoming request), and the hook builds no
    object, the store being as the lookup left it. *)
Theorem getPlan_failure_propagates
    (cfg : AppCfg) (gp : string → Store → Outcome Plan * Store)
    (a : AuthCtx) (s : HookState) (e : Error) (st' : Store) :
  gp (orgId a) (store s) = (Thrown e, st') →
  (onRequest cfg gp (Some a) s).1 = Thrown e
  ∧ req_rateLimits (onRequest cfg gp (Some a) s).2 = req_rateLimits s
  ∧ store (onRequest cfg gp (Some a) s).2 = st'.
Proof. intros Hgp. by erewrite onRequest_thrown. Qed.

Lemma getPlan_failure_propagates_witness :
  let out := onRequest cloud (failing_service (ServiceError "unreachable"))
               (Some acme) (incoming store0) in
  out.1 = Thrown (ServiceError "unreachable")
  ∧ req_rateLimits out.2 = null
  ∧ store out.2 = store0.
Proof.
  apply (getPlan_failure_propagates cloud
           (failing_service (ServiceError "unreachable"))
           acme (incoming store0) (ServiceError "unreachable") store0).
  reflexivity.
Defined.

Lemma merge_limits_no_plan_limits (p : Plan) (reg : RateLimits) :
  nullish (rateLimits p) = true → merge_limits p reg = reg.
Proof.
  intros Hnull. destruct reg. unfold merge_limits, merge_category, plan_limit.
  by destruct (rateLimits p).
Qed.

(** C7: for an authenticated request whose plan has [customRateLimits]
    unset and no [rateLimits] record at all ([undefined] or [null]), the
    hook returns normally and every category resolves to the registry
    snapshot's value. *)
Theorem absent_plan_limits_use_snapshot
    (cfg : AppCfg) (gp : string → Store → Outcome Plan * Store)
    (a : AuthCtx) (s : HookState) (p : Plan) (st' : Store) (reg : RateLimits) :
  snapshots_immutable gp →
  snapshot (store s) = Some reg →
  gp (orgId a) (store s) = (Returned p, st') →
  customRateLimits p = false →
  nullish (rateLimits p) = true →
  (onRequest cfg gp (Some a) s).1 = Returned tt
  ∧ resolved (onRequest cfg gp (Some a) s).2 = Some reg.
Proof.
  intros Himm Hreg Hgp Hcustom Hnull.
  pose proof (onRequest_resolved cfg gp Himm (Some a) s reg Hreg) as Hres.
  cbn in Hres. rewrite Hgp in Hres. cbn in Hres.
  rewrite Hcustom in Hres. cbn in Hres.
  by rewrite merge_limits_no_plan_limits in Hres.
Qed.

(** Scenario D: [customRateLimits] unset and [plan.rateLimits] null. *)
Lemma absent_plan_limits_use_snapshot_witness :
  let out := onRequest self_hosted (plan_service bare_plan) (Some acme)
               (incoming store0) in
  out.1 = Returned tt ∧ resolved out.2 = Some instance_defaults.
Proof.
  apply (absent_plan_limits_use_snapshot self_hosted (plan_service bare_plan)
           acme (incoming store0) bare_plan store0 instance_defaults).
  - intros org st. reflexivity.
  - reflexivity.
  - reflexivity.
  - reflexivity.
  - reflexivity.
Defined.

(** C8: the hook looks up a plan exactly when the request carries an auth
    context: a request without one triggers no lookup at all, and one with
    an auth context triggers a single lookup, for its own organisation. *)
Theorem getPlan_called_iff_authenticated
    (cfg : AppCfg) (gp : string → Store → Outcome Plan * Store)
    (req_auth : option AuthCtx) (st : Store) :
  plan_lookups (trace (onRequest cfg gp req_auth (incoming st)).2)
  = match req_auth with
    | None => []
    | Some a => [orgId a]
    end.
Proof. rewrite onRequest_trace. by destruct req_auth. Qed.

(** C9: on a cloud deployment the plan's [customRateLimits] flag has no
    influence: two runs whose inputs differ only in that flag end with the
    same outcome and in the same state. *)
Theorem cloud_ignores_customRateLimits
    (cfg : AppCfg) (gp : string → Store → Outcome Plan * Store)
    (req_auth : option AuthCtx) (s : HookState) (b1 b2 : bool) :
  isCloud cfg = true →
  onRequest cfg (with_customRateLimits b1 gp) req_auth s
  = onRequest cfg (with_customRateLimits b2 gp) req_auth s.
Proof.
  intros Hcloud. rewrite !onRequest_prelude. cbn zeta.
  destruct req_auth as [a|]; [|done].
  rewrite !bind_run, !getPlan_run. unfold with_customRateLimits. cbn.
  destruct (gp (orgId a) (store s)).1 as [p|e]; [|done].
  rewrite Hcloud, !andb_false_r. reflexivity.
Qed.

Lemma cloud_ignores_customRateLimits_witness :
  onRequest cloud (with_customRateLimits true (plan_service custom_read_plan))
    (Some acme) (incoming store0)
  = onRequest cloud (with_customRateLimits false (plan_service custom_read_plan))
      (Some acme) (incoming store0).
Proof.
  apply (cloud_ignores_customRateLimits cloud (plan_service custom_read_plan)
           (Some acme) (incoming store0) true false).
  reflexivity.
Defined.

(** C10: one run reads the registry once, before any plan lookup, and all
    it attaches comes from the snapshot read then: the resolved limits are
    either that snapshot itself or the plan merged, category by category,
    with that snapshot, even when the registry was given a new snapshot
    while the lookup was under way. *)
Theorem one_snapshot_per_resolution
    (cfg : AppCfg) (gp : string → Store → Outcome Plan * Store)
    (req_auth : option AuthCtx) (st : Store) (reg : RateLimits) :
  snapshots_immutable gp →
  snapshot st = Some reg →
  registry_reads (trace (onRequest cfg gp req_auth (incoming st)).2) = 1%nat
  ∧ trace (onRequest cfg gp req_auth (incoming st)).2
    = EvGetConfig :: EvGetRateLimiterConfig
        :: map EvGetPlan
             (plan_lookups (trace (onRequest cfg gp req_auth (incoming st)).2))
  ∧ ∀ o : RateLimits,
      resolved (onRequest cfg gp req_auth (incoming st)).2 = Some o →
      o = reg
      ∨ ∃ a p, req_auth = Some a
               ∧ (gp (orgId a) st).1 = Returned p
               ∧ o = merge_limits p reg.
Proof.
  intros Himm Hreg.
  pose proof (onRequest_resolved cfg gp Himm req_auth (incoming st) reg Hreg)
    as Hres.
  cbn zeta in Hres. rewrite onRequest_trace.
  split; [by destruct req_auth|]. split; [by destruct req_auth|].
  intros o Ho. destruct req_auth as [a|].
  - cbn [store incoming] in Hres.
    destruct (gp (orgId a) st).1 as [p|e] eqn:Hp.
    + destruct Hres as [_ Hres]. rewrite Hres in Ho.
      destruct (customRateLimits p && negb (isCloud cfg)).
      * left. congruence.
      * right. exists a, p. repeat split; congruence.
    + destruct Hres as [_ Hres]. unfold resolved in Ho.
      rewrite Hres in Ho. discriminate.
  - destruct Hres as [_ Hres]. left. congruence.
Qed.

(** An administrative sync installs [synced_defaults] during the plan
    lookup; the run still reads the registry once and draws from the
    snapshot it read. *)
Lemma one_snapshot_per_resolution_witness :
  let out := onRequest cloud
               (syncing_service custom_read_plan synced_defaults)
               (Some acme) (incoming store0) in
  registry_reads (trace out.2) = 1%nat
  ∧ trace out.2
    = EvGetConfig :: EvGetRateLimiterConfig
        :: map EvGetPlan (plan_lookups (trace out.2))
  ∧ ∀ o : RateLimits,
      resolved out.2 = Some o →
      o = instance_defaults
      ∨ ∃ a p, Some acme = Some a
               ∧ (syncing_service custom_read_plan synced_defaults
                    (orgId a) store0).1 = Returned p
               ∧ o = merge_limits p instance_defaults.
Proof.
  apply (one_snapshot_per_resolution cloud
           (syncing_service custom_read_plan synced_defaults)
           (Some acme) store0 instance_defaults).
  - intros org st. cbn. apply insert_subseteq, not_elem_of_dom, is_fresh.
  - reflexivity.
Defined.

(** In that run the registry ends on the new snapshot, while the request's
    write limit is the 60 of the snapshot read at the start, not the 500 of
    the new one. *)
Example sync_during_lookup :
  let out := onRequest cloud
               (syncing_service custom_read_plan synced_defaults)
               (Some acme) (incoming store0) in
  snapshot (store out.2) = Some synced_defaults
  ∧ resolved out.2 =
      Some {| readLimit := val 9999;
              publicEndpointLimit := val 30;
              writeLimit := val 60;
              secretsLimit := val 40;
              authRateLimit := val 60;
              inviteUserRateLimit := val 30;
              mfaRateLimit := val 20;
              creationLimit := val 30 |}.
Proof. vm_compute. split; reflexivity. Qed.

(** Scenario A: an unauthenticated request gets the instance defaults. *)
Example scenario_public :
  resolved (onRequest cloud (plan_service custom_read_plan) None
              (incoming store0)).2 = Some instance_defaults.
Proof. reflexivity. Qed.

(** ** Further properties of the hook *)

Lemma merged_branch_frame (r : ref) (p : Plan) (s : HookState) :
  registry (store (merged_branch r p s).2) = registry (store s)
  ∧ ∀ r', r' ≠ fresh (dom (heap (store s))) →
          heap (store (merged_branch r p s).2) !! r' = heap (store s) !! r'.
Proof.
  unfold merged_branch.
  do 8 (rewrite bind_run;
        match goal with
        | |- context [coalesce ?a (prop ?r ?f) ?s] =>
            destruct (coalesce_cases a r f s) as [[? ->] | ->]; [|done]
        end).
  rewrite bind_run. unfold new_object, set_req_rateLimits.
  cbn [fst snd store heap registry]. split; [done|].
  intros r' Hr'. by rewrite lookup_insert_ne.
Qed.

(** The store the hook's own steps start from: the one it was entered in,
    or the one the plan lookup left. *)
Lemma onRequest_frame (cfg : AppCfg)
    (gp : string → Store → Outcome Plan * Store)
    (req_auth : option AuthCtx) (s : HookState) (st' : Store) :
  st' = match req_auth with
        | None => store s
        | Some a => (gp (orgId a) (store s)).2
        end →
  registry (store (onRequest cfg gp req_auth s).2) = registry st'
  ∧ ∀ r, r ≠ fresh (dom (heap st')) →
         heap (store (onRequest cfg gp req_auth s).2) !! r = heap st' !! r.
Proof.
  intros ->. rewrite onRequest_prelude. cbn zeta.
  destruct req_auth as [a|]; [|by split].
  rewrite bind_run, getPlan_run. cbn.
  destruct (gp (orgId a) (store s)) as [[p|e] st']; cbn; [|by split].
  destruct (customRateLimits p && negb (isCloud cfg)); [by split|].
  apply merged_branch_frame.
Qed.

Lemma frame_subseteq (h h' : gmap positive RateLimits) :
  (∀ r, r ≠ fresh (dom h) → h' !! r = h !! r) → h ⊆ h'.
Proof.
  intros Hframe. apply map_subseteq_spec. intros r o Hr.
  rewrite Hframe; [done|]. intros ->.
  apply (is_fresh (dom h)). apply elem_of_dom. by exists o.
Qed.

Lemma onRequest_keeps_objects (cfg : AppCfg)
    (gp : string → Store → Outcome Plan * Store)
    (req_auth : option AuthCtx) (s : HookState) :
  snapshots_immutable gp →
  heap (store s) ⊆ heap (store (onRequest cfg gp req_auth s).2).
Proof.
  intros Himm.
  destruct (onRequest_frame cfg gp req_auth s _ eq_refl) as [_ Hframe].
  apply frame_subseteq in Hframe. destruct req_auth as [a|]; [|done].
  etrans; [apply (Himm (orgId a))|done].
Qed.

(** X1: the hook's own steps never alter or remove an object and never
    re-point the registry.  Whatever the branch and the outcome, the final
    store has the registry where the lookup left it (where it was, for a
    request without auth) and differs from that store in at most one
    reference, a new one. *)
Theorem hook_leaves_store_intact
    (cfg : AppCfg) (gp : string → Store → Outcome Plan * Store)
    (req_auth : option AuthCtx) (s : HookState) :
  let st' := match req_auth with
             | None => store s
             | Some a => (gp (orgId a) (store s)).2
             end in
  registry (store (onRequest cfg gp req_auth s).2) = registry st'
  ∧ heap st' ⊆ heap (store (onRequest cfg gp req_auth s).2)
  ∧ ∀ r, r ≠ fresh (dom (heap st')) →
         heap (store (onRequest cfg gp req_auth s).2) !! r = heap st' !! r.
Proof.
  intros st'.
  destruct (onRequest_frame cfg gp req_auth s st' eq_refl) as [Hreg Hframe].
  repeat split; [done| |done]. by apply frame_subseteq.
Qed.

(** X2: the hook has no failure of its own.  With the registry designating
    an object and snapshots immutable, the hook throws [e] exactly when the
    request is authenticated and its plan lookup throws [e]. *)
Theorem hook_throws_only_what_lookup_throws
    (cfg : AppCfg) (gp : string → Store → Outcome Plan * Store)
    (req_auth : option AuthCtx) (s : HookState) (reg : RateLimits)
    (e : Error) :
  snapshots_immutable gp →
  snapshot (store s) = Some reg →
  (onRequest cfg gp req_auth s).1 = Thrown e
  ↔ ∃ a, req_auth = Some a ∧ (gp (orgId a) (store s)).1 = Thrown e.
Proof.
  intros Himm Hreg.
  pose proof (onRequest_resolved cfg gp Himm req_auth s reg Hreg) as Hres.
  cbn zeta in Hres. destruct req_auth as [a|].
  - destruct (gp (orgId a) (store s)).1 as [p|e'] eqn:Hgp.
    + destruct Hres as [-> _]. split; [done|].
      intros (a0 & [= <-] & Hthrown). congruence.
    + destruct Hres as [-> _]. split.
      * intros [= ->]. by exists a.
      * intros (a0 & [= <-] & Hthrown). congruence.
  - destruct Hres as [-> _]. split; [done|]. by intros (? & [=] & _).
Qed.

Lemma hook_throws_only_what_lookup_throws_witness :
  (onRequest cloud (failing_service (ServiceError "unreachable"))
     (Some acme) (incoming store0)).1 = Thrown (ServiceError "unreachable")
  ↔ ∃ a, Some acme = Some a
         ∧ (failing_service (ServiceError "unreachable") (orgId a) store0).1
           = Thrown (ServiceError "unreachable").
Proof.
  apply (hook_throws_only_what_lookup_throws cloud
           (failing_service (ServiceError "unreachable"))
           (Some acme) (incoming store0) instance_defaults).
  - intros org st. reflexivity.
  - reflexivity.
Defined.

(** X3: in the plan-merged branch the request gets an object of its own.
    [req.rateLimits] is a reference that designated nothing when the lookup
    returned; in particular it is not the registry's object, even when the
    merged limits equal the snapshot's. *)
Theorem merged_limits_are_a_new_object
    (cfg : AppCfg) (gp : string → Store → Outcome Plan * Store)
    (a : AuthCtx) (s : HookState) (p : Plan) (st' : Store) (reg : RateLimits) :
  snapshots_immutable gp →
  snapshot (store s) = Some reg →
  gp (orgId a) (store s) = (Returned p, st') →
  customRateLimits p = false ∨ isCloud cfg = true →
  ∃ r : ref,
    req_rateLimits (onRequest cfg gp (Some a) s).2 = val r
    ∧ heap st' !! r = None
    ∧ r ≠ registry (store s).
Proof.
  intros Himm Hreg Hgp Hflag.
  pose proof (snapshot_survives gp Himm (orgId a) _ _ Hreg) as Hkept.
  rewrite Hgp in Hkept. cbn in Hkept.
  erewrite onRequest_merged by eauto using override_off.
  cbn [snd req_rateLimits]. eexists. split; [reflexivity|].
  assert (heap st' !! fresh (dom (heap st')) = None) as Hnew
    by apply not_elem_of_dom, is_fresh.
  split; [exact Hnew|]. intros Heq. rewrite <- Heq in Hkept.
  discriminate (eq_trans (eq_sym Hkept) Hnew).
Qed.

(** A plan without limits of its own: the limits equal the snapshot, held
    in another object. *)
Lemma merged_limits_are_a_new_object_witness :
  ∃ r : ref,
    req_rateLimits (onRequest self_hosted (plan_service bare_plan)
                      (Some acme) (incoming store0)).2 = val r
    ∧ heap store0 !! r = None
    ∧ r ≠ registry (store (incoming store0)).
Proof.
  apply (merged_limits_are_a_new_object self_hosted (plan_service bare_plan)
           acme (incoming store0) bare_plan store0 instance_defaults).
  - intros org st. reflexivity.
  - reflexivity.
  - reflexivity.
  - left. reflexivity.
Defined.

Lemma populated_fields (rl : RateLimits) (c : Category) :
  populated rl = true → ∃ n, limit_of c rl = val n.
Proof.
  unfold populated. rewrite forallb_forall. intros Hpop.
  assert (In c all_categories) as Hc by (destruct c; cbn; tauto).
  specialize (Hpop c Hc). destruct (limit_of c rl); [done|done|eauto].
Qed.

(** [??] does not evaluate its right operand when the left one is a
    number. *)
Lemma coalesce_number (p : Plan) (c : Category) (n : Z) (b : M (Js Z))
    (s : HookState) :
  plan_limit p c = val n →
  coalesce (plan_limit p c) b s = (Returned (val n), s).
Proof. intros ->. reflexivity. Qed.

(** X4: a plan that sets all eight limits decides the outcome alone.  When
    the override does not apply, the resolved limits are the plan's, and
    the registry's object is not read: this holds for any store, whatever
    the registry designates. *)
Theorem full_plan_needs_no_registry
    (cfg : AppCfg) (gp : string → Store → Outcome Plan * Store)
    (a : AuthCtx) (s : HookState) (p : Plan) (st' : Store) (rl : RateLimits) :
  gp (orgId a) (store s) = (Returned p, st') →
  customRateLimits p = false ∨ isCloud cfg = true →
  rateLimits p = val rl →
  populated rl = true →
  (onRequest cfg gp (Some a) s).1 = Returned tt
  ∧ resolved (onRequest cfg gp (Some a) s).2 = Some rl.
Proof.
  intros Hgp Hflag Hrl Hpop. rewrite onRequest_prelude. cbn zeta.
  rewrite bind_run, getPlan_run. cbn. rewrite Hgp. cbn.
  rewrite (override_off _ _ Hflag). unfold merged_branch.
  destruct (populated_fields rl Read Hpop) as [n1 H1].
  destruct (populated_fields rl PublicEndpoint Hpop) as [n2 H2].
  destruct (populated_fields rl Write Hpop) as [n3 H3].
  destruct (populated_fields rl Secrets Hpop) as [n4 H4].
  destruct (populated_fields rl Auth Hpop) as [n5 H5].
  destruct (populated_fields rl InviteUser Hpop) as [n6 H6].
  destruct (populated_fields rl Mfa Hpop) as [n7 H7].
  destruct (populated_fields rl Creation Hpop) as [n8 H8].
  assert (∀ c n, limit_of c rl = val n → plan_limit p c = val n) as Hp.
  { intros c n Hc. unfold plan_limit. by rewrite Hrl. }
  rewrite bind_run, (coalesce_number p Read n1) by auto.
  rewrite bind_run, (coalesce_number p PublicEndpoint n2) by auto.
  rewrite bind_run, (coalesce_number p Write n3) by auto.
  rewrite bind_run, (coalesce_number p Secrets n4) by auto.
  rewrite bind_run, (coalesce_number p Auth n5) by auto.
  rewrite bind_run, (coalesce_number p InviteUser n6) by auto.
  rewrite bind_run, (coalesce_number p Mfa n7) by auto.
  rewrite bind_run, (coalesce_number p Creation n8) by auto.
  rewrite bind_run. cbn. split; [done|].
  unfold resolved. cbn. rewrite lookup_insert_eq. f_equal.
  destruct rl. cbn in *. congruence.
Qed.

(** A store whose registry designates no object cannot be read from; a
    plan with all limits set is resolved in it all the same. *)
Lemma full_plan_needs_no_registry_witness :
  (onRequest cloud
     (plan_service {| customRateLimits := true;
                      rateLimits := val synced_defaults |})
     (Some acme) (incoming {| heap := ∅; registry := 1%positive |})).1
  = Returned tt
  ∧ resolved
      (onRequest cloud
         (plan_service {| customRateLimits := true;
                          rateLimits := val synced_defaults |})
         (Some acme) (incoming {| heap := ∅; registry := 1%positive |})).2
    = Some synced_defaults.
Proof.
  apply (full_plan_needs_no_registry cloud
           (plan_service {| customRateLimits := true;
                            rateLimits := val synced_defaults |})
           acme (incoming {| heap := ∅; registry := 1%positive |})
           {| customRateLimits := true; rateLimits := val synced_defaults |}
           {| heap := ∅; registry := 1%positive |} synced_defaults).
  - reflexivity.
  - right. reflexivity.
  - reflexivity.
  - reflexivity.
Defined.

(** X5: resolving a later request does not disturb an earlier one.  The
    limits the first request resolved are still what that request reads
    after a second request, with any auth state, has gone through the
    hook. *)
Theorem earlier_request_keeps_its_limits
    (cfg : AppCfg) (gp : string → Store → Outcome Plan * Store)
    (auth1 auth2 : option AuthCtx) (st : Store) (o : RateLimits) :
  snapshots_immutable gp →
  resolved (onRequest cfg gp auth1 (incoming st)).2 = Some o →
  limits_in
    (store (onRequest cfg gp auth2
              (incoming (store (onRequest cfg gp auth1 (incoming st)).2))).2)
    (req_rateLimits (onRequest cfg gp auth1 (incoming st)).2)
  = Some o.
Proof.
  intros Himm Ho. unfold limits_in, resolved in *. cbn.
  destruct (req_rateLimits _) as [| |r]; [done|done|].
  eapply lookup_weaken; [exact Ho|].
  apply (onRequest_keeps_objects cfg gp auth2 (incoming _) Himm).
Qed.

Lemma earlier_request_keeps_its_limits_witness :
  limits_in
    (store (onRequest cloud (plan_service custom_read_plan) None
              (incoming
                 (store (onRequest cloud (plan_service custom_read_plan)
                           (Some acme) (incoming store0)).2))).2)
    (req_rateLimits (onRequest cloud (plan_service custom_read_plan)
                       (Some acme) (incoming store0)).2)
  = Some (merge_limits custom_read_plan instance_defaults).
Proof.
  apply (earlier_request_keeps_its_limits cloud
           (plan_service custom_read_plan) (Some acme) None store0
           (merge_limits custom_read_plan instance_defaults)).
  - intros org st. reflexivity.
  - vm_compute. reflexivity.
Defined.

Lemma interleaved_immutable (cfg : AppCfg)
    (gp : string → Store → Outcome Plan * Store) (other : option AuthCtx) :
  snapshots_immutable gp → snapshots_immutable (interleaved cfg gp other).
Proof.
  intros Himm org st. unfold interleaved.
  etrans; [|apply Himm].
  apply (onRequest_keeps_objects cfg gp other (incoming st) Himm).
Qed.

(** X6: requests do not interfere through the hook.  If another request's
    hook runs while this request is suspended in its plan lookup, and the
    lookup answers as it would have, this request ends with the same
    outcome and the same limits as when it runs alone. *)
Theorem concurrent_hook_does_not_interfere
    (cfg : AppCfg) (gp : string → Store → Outcome Plan * Store)
    (req_auth other : option AuthCtx) (st : Store) (reg : RateLimits) :
  snapshots_immutable gp →
  snapshot st = Some reg →
  (∀ a, req_auth = Some a →
        (interleaved cfg gp other (orgId a) st).1 = (gp (orgId a) st).1) →
  (onRequest cfg (interleaved cfg gp other) req_auth (incoming st)).1
    = (onRequest cfg gp req_auth (incoming st)).1
  ∧ resolved (onRequest cfg (interleaved cfg gp other) req_auth (incoming st)).2
    = resolved (onRequest cfg gp req_auth (incoming st)).2.
Proof.
  intros Himm Hreg Hsame.
  pose proof (onRequest_resolved cfg gp Himm req_auth (incoming st) reg Hreg)
    as H1.
  pose proof (onRequest_resolved cfg (interleaved cfg gp other)
                (interleaved_immutable cfg gp other Himm)
                req_auth (incoming st) reg Hreg) as H2.
  cbn zeta in H1, H2. destruct req_auth as [a|].
  - cbn [store incoming] in H1, H2. rewrite (Hsame a eq_refl) in H2.
    destruct (gp (orgId a) st).1 as [p|e].
    + destruct H1 as [-> ->], H2 as [-> ->]. done.
    + destruct H1 as [-> H1], H2 as [-> H2]. split; [done|].
      unfold resolved. by rewrite H1, H2.
  - destruct H1 as [-> ->], H2 as [-> ->]. done.
Qed.

(** Another authenticated request's hook, which adds an object of its own
    to the store, runs during the lookup. *)
Lemma concurrent_hook_does_not_interfere_witness :
  (onRequest cloud (interleaved cloud (plan_service custom_read_plan) (Some acme))
     (Some acme) (incoming store0)).1
    = (onRequest cloud (plan_service custom_read_plan) (Some acme)
         (incoming store0)).1
  ∧ resolved
      (onRequest cloud
         (interleaved cloud (plan_service custom_read_plan) (Some acme))
         (Some acme) (incoming store0)).2
    = resolved (onRequest cloud (plan_service custom_read_plan) (Some acme)
                  (incoming store0)).2.
Proof.
  apply (concurrent_hook_does_not_interfere cloud
           (plan_service custom_read_plan) (Some acme) (Some acme) store0
           instance_defaults).
  - intros org st. reflexivity.
  - reflexivity.
  - intros a _. reflexivity.
Defined.

(** ** Properties of the user router *)

(** Case analysis on the position of a registered route. *)
Ltac route_step H :=
  lazymatch type of H with
  | (_ :: _) !! ?i = Some _ =>
      destruct i; [injection H as <-|cbn [lookup list_lookup] in H]
  | _ = Some _ => discriminate H
  end.

Ltac each_route H :=
  unfold UserRouter.registerUserRouter, UserRouter.routes in H;
  cbn [app] in H; repeat route_step H.

Lemma route_keys_distinct :
  NoDup (map (λ r, (UserRouter.method r, UserRouter.url r)) UserRouter.routes).
Proof. by apply (bool_decide_unpack _). Qed.

(** X7: registration keeps routes apart.  On a server whose routes have
    pairwise distinct method and url, none of them one the router adds,
    [registerUserRouter] yields a server whose routes again have pairwise
    distinct method and url; in particular no two of the router's own
    routes collide. *)
Theorem registerUserRouter_keeps_routes_distinct
    (server : list UserRouter.Route) :
  NoDup (map (λ r, (UserRouter.method r, UserRouter.url r)) server) →
  (∀ r r', r ∈ server → r' ∈ UserRouter.routes →
           (UserRouter.method r, UserRouter.url r)
           ≠ (UserRouter.method r', UserRouter.url r')) →
  NoDup (map (λ r, (UserRouter.method r, UserRouter.url r))
           (UserRouter.registerUserRouter server)).
Proof.
  intros Hserver Hapart. unfold UserRouter.registerUserRouter.
  rewrite map_app. apply NoDup_app. split; [done|]. split.
  - intros key Hkey Hkey'.
    apply list_elem_of_fmap in Hkey as (r & -> & Hr).
    apply list_elem_of_fmap in Hkey' as (r' & Heq & Hr').
    by apply (Hapart r r').
  - apply route_keys_distinct.
Qed.

Lemma registerUserRouter_keeps_routes_distinct_witness :
  NoDup (map (λ r, (UserRouter.method r, UserRouter.url r))
           (UserRouter.registerUserRouter [])).
Proof.
  apply (registerUserRouter_keeps_routes_distinct []).
  - constructor.
  - intros r r' Hr. inversion Hr.
Defined.

(** X8: the read limiter goes with reading.  A route of the router is
    throttled by [readLimit] exactly when its method is GET. *)
Theorem readLimit_iff_GET (i : nat) (r : UserRouter.Route) :
  UserRouter.registerUserRouter [] !! i = Some r →
  UserRouter.rateLimit r = UserRouter.readLimit
  ↔ UserRouter.method r = UserRouter.GET.
Proof. intros H. each_route H; by cbn. Qed.

Lemma readLimit_iff_GET_witness :
  ∃ r, UserRouter.registerUserRouter [] !! 10%nat = Some r
       ∧ (UserRouter.rateLimit r = UserRouter.readLimit
          ↔ UserRouter.method r = UserRouter.GET)
       ∧ UserRouter.url r = "/me/sessions".
Proof.
  eexists. split; [reflexivity|]. split; [|reflexivity].
  apply (readLimit_iff_GET 10). reflexivity.
Defined.

(** X9: every route of the router is behind [verifyAuth] with JWT among
    the accepted modes, and a route whose handler calls the [apiKey] or the
    [authToken] service accepts JWT only: an API key cannot be used to
    list, create or delete API keys, or to list or revoke sessions. *)
Theorem credential_routes_accept_JWT_only
    (i : nat) (r : UserRouter.Route) (req : UserRouter.Request)
    (service meth : string) (args : list UserRouter.Json)
    (k : UserRouter.Json → UserRouter.Handler) :
  UserRouter.registerUserRouter [] !! i = Some r →
  UserRouter.handler r req = UserRouter.Await service meth args k →
  UserRouter.JWT ∈ UserRouter.authModes r
  ∧ (service = "apiKey" ∨ service = "authToken" →
     UserRouter.authModes r = [UserRouter.JWT]).
Proof.
  intros H Hcall.
  each_route H; cbn in *; injection Hcall as <- _ _ _;
    (split; [set_solver|]); intros [Hs|Hs]; done.
Qed.

Lemma credential_routes_accept_JWT_only_witness :
  ∃ r, UserRouter.registerUserRouter [] !! 9%nat = Some r
       ∧ UserRouter.url r = "/me/api-keys/:apiKeyDataId"
       ∧ UserRouter.JWT ∈ UserRouter.authModes r
       ∧ ("apiKey" = "apiKey" ∨ "apiKey" = "authToken" →
          UserRouter.authModes r = [UserRouter.JWT]).
Proof.
  eexists. split; [reflexivity|]. split; [reflexivity|].
  eapply (credential_routes_accept_JWT_only 9 _
            {| UserRouter.permission_id := "user-1";
               UserRouter.body := ∅; UserRouter.params := ∅ |}
            "apiKey" "deleteApiKey").
  - reflexivity.
  - reflexivity.
Defined.

(** X10: every handler acts for the caller only.  Whatever the request
    and whatever the services return, a handler makes exactly one service
    call, and the first argument of that call is the authenticated
    principal [req.permission.id]. *)
Theorem handlers_call_once_for_caller
    (i : nat) (r : UserRouter.Route) (req : UserRouter.Request) :
  UserRouter.registerUserRouter [] !! i = Some r →
  ∃ service meth args,
    ∀ results,
      UserRouter.calls (UserRouter.handler r req) results
      = [(service, meth, UserRouter.JStr (UserRouter.permission_id req) :: args)].
Proof.
  intros H.
  each_route H; cbn; do 3 eexists; intros [|v results]; reflexivity.
Qed.

Lemma handlers_call_once_for_caller_witness :
  ∃ r, UserRouter.registerUserRouter [] !! 4%nat = Some r
       ∧ UserRouter.url r = "/me/name"
       ∧ ∃ service meth args,
           ∀ results,
             UserRouter.calls
               (UserRouter.handler r
                  {| UserRouter.permission_id := "user-1";
                     UserRouter.body := {[ "firstName" := UserRouter.JStr "Ada" ]};
                     UserRouter.params := ∅ |}) results
             = [(service, meth, UserRouter.JStr "user-1" :: args)].
Proof.
  eexists. split; [reflexivity|]. split; [reflexivity|].
  apply (handlers_call_once_for_caller 4 _
           {| UserRouter.permission_id := "user-1";
              UserRouter.body := {[ "firstName" := UserRouter.JStr "Ada" ]};
              UserRouter.params := ∅ |}).
  reflexivity.
Defined.

(** X11: a handler reads nothing of the request beyond what its route
    declares.  Two requests by the same principal that agree on the keys of
    the route's body schema and of its params schema are handled alike:
    same calls, same outcome, same reply, same final world, whatever the
    services do. *)
Theorem handlers_read_declared_fields_only
    (i : nat) (r : UserRouter.Route) (req1 req2 : UserRouter.Request)
    (W : Type)
    (services : string → string → list UserRouter.Json → W
                → Outcome UserRouter.Json * W)
    (w : W) :
  UserRouter.registerUserRouter [] !! i = Some r →
  UserRouter.permission_id req1 = UserRouter.permission_id req2 →
  UserRouter.agree_on (UserRouter.schema_body r)
    (UserRouter.body req1) (UserRouter.body req2) →
  UserRouter.agree_on (UserRouter.schema_params r)
    (UserRouter.params req1) (UserRouter.params req2) →
  UserRouter.run W services (UserRouter.handler r req1) w
  = UserRouter.run W services (UserRouter.handler r req2) w.
Proof.
  intros H Hid Hb Hp.
  each_route H; unfold UserRouter.agree_on in Hb, Hp; cbn in Hb, Hp |- *;
    unfold UserRouter.me; rewrite Hid;
    repeat match goal with
      | |- context [UserRouter.get (UserRouter.body req1) ?k] =>
          rewrite (Hb k) by set_solver
      | |- context [UserRouter.get (UserRouter.params req1) ?k] =>
          rewrite (Hp k) by set_solver
      end;
    reflexivity.
Qed.

(** Two bodies for [PATCH /me/name] that differ only in an undeclared
    key, against a service that echoes its arguments. *)
Lemma handlers_read_declared_fields_only_witness :
  ∃ r, UserRouter.registerUserRouter [] !! 4%nat = Some r
       ∧ UserRouter.url r = "/me/name"
       ∧ UserRouter.run unit (λ _ _ args w, (Returned (UserRouter.JArr args), w))
           (UserRouter.handler r
              {| UserRouter.permission_id := "user-1";
                 UserRouter.body :=
                   {[ "firstName" := UserRouter.JStr "Ada";
                      "lastName" := UserRouter.JStr "L";
                      "id" := UserRouter.JStr "user-2" ]};
                 UserRouter.params := ∅ |}) tt
         = UserRouter.run unit (λ _ _ args w, (Returned (UserRouter.JArr args), w))
             (UserRouter.handler r
                {| UserRouter.permission_id := "user-1";
                   UserRouter.body :=
                     {[ "firstName" := UserRouter.JStr "Ada";
                        "lastName" := UserRouter.JStr "L" ]};
                   UserRouter.params := ∅ |}) tt.
Proof.
  eexists. split; [reflexivity|]. split; [reflexivity|].
  apply (handlers_read_declared_fields_only 4).
  - reflexivity.
  - reflexivity.
  - intros k Hk. cbn in Hk.
    apply elem_of_cons in Hk as [-> | Hk]; [vm_compute; reflexivity|].
    apply elem_of_cons in Hk as [-> | Hk]; [vm_compute; reflexivity|].
    inversion Hk.
  - intros k Hk. inversion Hk.
Defined.

(** X12: replies have the shape the route declares.  Each handler ends
    after its one call, and either passes the service's result through as
    the reply, or replies with an object whose keys are exactly the keys of
    the route's 200 response schema. *)
Theorem replies_match_response_schema
    (i : nat) (r : UserRouter.Route) (req : UserRouter.Request) :
  UserRouter.registerUserRouter [] !! i = Some r →
  ∃ service meth args k,
    UserRouter.handler r req = UserRouter.Await service meth args k
    ∧ ∀ v,
        k v = UserRouter.Reply v
        ∨ ∃ fields,
            k v = UserRouter.Reply (UserRouter.JObj fields)
            ∧ UserRouter.schema_response r = UserRouter.z_object fields.*1.
Proof.
  intros H.
  each_route H; cbn; do 4 eexists; (split; [reflexivity|]); intros v;
    first [by left | right; eexists; split; reflexivity].
Qed.

Lemma replies_match_response_schema_witness :
  ∃ r, UserRouter.registerUserRouter [] !! 11%nat = Some r
       ∧ UserRouter.url r = "/me/sessions"
       ∧ ∃ service meth args k,
           UserRouter.handler r
             {| UserRouter.permission_id := "user-1";
                UserRouter.body := ∅; UserRouter.params := ∅ |}
           = UserRouter.Await service meth args k
           ∧ ∀ v,
               k v = UserRouter.Reply v
               ∨ ∃ fields,
                   k v = UserRouter.Reply (UserRouter.JObj fields)
                   ∧ UserRouter.schema_response r
                     = UserRouter.z_object fields.*1.
Proof.
  eexists. split; [reflexivity|]. split; [reflexivity|].
  apply (replies_match_response_schema 11). reflexivity.
Defined.
